(** * misoto-cli: binary search and Tower of Hanoi

  A shallow embedding of the two scripts of the repository,
  [src/misoto/tower_of_hanoi.py] and [src/misoto/binary_search.py],
  and the properties their specification states about them.

  Python integers are unbounded, so they are [Z]; [//] on a positive
  divisor is [Z.div] (floor division); a Python list is a [list]. *)

From Equations Require Import Equations.
From Stdlib Require Import ZArith List Bool Lia.
From Stdlib Require String DecimalString.
Import ListNotations.

Local Open Scope Z_scope.
Local Open Scope list_scope.

(** [inspect] keeps the equation of a scrutinee in scope, so that the
  obligations of a well-founded definition can use the branch taken. *)
Definition inspect {A : Type} (a : A) : { b : A | a = b } := exist _ a eq_refl.

(* ===================================================================== *)
(** * Tower of Hanoi: [src/misoto/tower_of_hanoi.py] *)
(* ===================================================================== *)

Module Hanoi.

Section Solver.

(** A peg is a label; the function never inspects it. *)
Context {Peg : Type}.

(** A move is the pair (from peg, to peg). *)
Definition Move : Type := (Peg * Peg)%type.

(** [solve_tower n src temp dst] is the sequence of moves that the call
    [solve_tower(n, src, temp, dst)] emits, in emission order.

<<
    def solve_tower(n, src, temp, dst):
        if n > 1:
            solve_tower(n-1, src, dst, temp)
            solve_tower(1, src, temp, dst)
            solve_tower(n-1, temp, dst, src)
>>
    The body is the three calls and nothing else: it holds no [print],
    [yield], [append] or [return] of a value.  What a call emits is
    therefore what its three sub-calls emit, one after the other, and a
    call that does not enter the [if] emits nothing.

    The recursion is not structural ([n] is an integer and the second
    call is at the constant [1]); it is well founded on [Z.to_nat n],
    using the guard [n > 1] of the branch. *)
Equations? solve_tower (n : Z) (src temp dst : Peg) : list Move
  by wf (Z.to_nat n) lt :=
  solve_tower n src temp dst with inspect (n >? 1) => {
    | exist _ true Hgt :=
        solve_tower (n - 1) src dst temp ++
        solve_tower 1 src temp dst ++
        solve_tower (n - 1) temp dst src;
    | exist _ false _ := [] }.
Proof.
  all: apply Z.gtb_lt in Hgt; lia.
Qed.

(** The same body with an explicit budget of call-stack frames: [None]
    when the recursion would need more than [depth] nested calls.  It
    states termination without relying on the totality of the
    definition above. *)
Fixpoint solve_tower_depth (depth : nat) (n : Z) (src temp dst : Peg)
  : option (list Move) :=
  match depth with
  | O => None
  | S d =>
      if n >? 1 then
        match solve_tower_depth d (n - 1) src dst temp with
        | None => None
        | Some first =>
            match solve_tower_depth d 1 src temp dst with
            | None => None
            | Some middle =>
                match solve_tower_depth d (n - 1) temp dst src with
                | None => None
                | Some last => Some (first ++ middle ++ last)
                end
            end
        end
      else Some []
  end.

(** The calls with [n = 1] that the execution of
    [solve_tower(n, src, temp, dst)] makes, the outermost included, each
    recorded by its arguments (src, dst), in call order.  This is the
    call tree of the source, not its output: such a call fails the guard
    and runs no statement. *)
Equations? unit_calls (n : Z) (src temp dst : Peg) : list Move
  by wf (Z.to_nat n) lt :=
  unit_calls n src temp dst with inspect (n >? 1) => {
    | exist _ true Hgt :=
        unit_calls (n - 1) src dst temp ++
        unit_calls 1 src temp dst ++
        unit_calls (n - 1) temp dst src;
    | exist _ false _ := if n =? 1 then [(src, dst)] else [] }.
Proof.
  all: apply Z.gtb_lt in Hgt; lia.
Qed.

(** ** Properties of the solver *)

(** The defining equation of [solve_tower], in the shape of the source. *)
Lemma solve_tower_body (n : Z) (src temp dst : Peg) :
  solve_tower n src temp dst =
  if n >? 1 then
    solve_tower (n - 1) src dst temp ++
    solve_tower 1 src temp dst ++
    solve_tower (n - 1) temp dst src
  else [].
Proof.
  funelim (solve_tower n src temp dst).
  - rewrite Hgt. reflexivity.
  - rewrite e. reflexivity.
Qed.

(** A call that does not pass the guard [n > 1] emits nothing. *)
Lemma solve_tower_base (n : Z) (src temp dst : Peg) :
  n <= 1 -> solve_tower n src temp dst = [].
Proof.
  intros Hn. rewrite solve_tower_body.
  destruct (n >? 1) eqn:Hgt; [apply Z.gtb_lt in Hgt; lia | reflexivity].
Qed.

(** No call emits a move: every leaf of the recursion is a call that
    fails the guard, and such a call has no statement to run. *)
Lemma solve_tower_emits_nothing (n : Z) (src temp dst : Peg) :
  solve_tower n src temp dst = [].
Proof.
  funelim (solve_tower n src temp dst); [| reflexivity].
  repeat match goal with
         | IH : solve_tower _ _ _ _ = [] |- _ => rewrite IH; clear IH
         end.
  reflexivity.
Qed.

(** With a budget of [max 1 n] frames the budgeted solver returns, and
    returns what [solve_tower] does. *)
Lemma solve_tower_depth_enough (depth : nat) :
  forall (n : Z) (src temp dst : Peg),
    (1 <= depth)%nat -> (Z.to_nat n <= depth)%nat ->
    solve_tower_depth depth n src temp dst = Some (solve_tower n src temp dst).
Proof.
  induction depth as [| d IH]; intros n src temp dst H1 Hn; [lia |].
  cbn [solve_tower_depth]. rewrite (solve_tower_body n).
  destruct (n >? 1) eqn:Hgt; [| reflexivity].
  apply Z.gtb_lt in Hgt.
  rewrite !IH by lia. reflexivity.
Qed.

(** The calls at [n = 1] are where the moves of the puzzle would be: for
    [n >= 0] there are 2^n - 1 of them.  The source makes these calls and
    emits nothing in them. *)
Lemma unit_calls_count (n : Z) (src temp dst : Peg) :
  0 <= n -> Z.of_nat (length (unit_calls n src temp dst)) = 2 ^ n - 1.
Proof.
  funelim (unit_calls n src temp dst); intros Hn.
  - pose proof (proj1 (Z.gtb_lt n 1) Hgt) as Hlt.
    rewrite !length_app, !Nat2Z.inj_add.
    repeat match goal with
           | IH : 0 <= ?m -> Z.of_nat (length (unit_calls ?m _ _ _)) = _ |- _ =>
               rewrite IH by lia; clear IH
           end.
    replace n with (Z.succ (n - 1)) at 3 by lia.
    rewrite Z.pow_succ_r by lia. lia.
  - assert (Hle : n <= 1).
    { destruct (Z.gtb_spec n 1); [discriminate | lia]. }
    destruct (Z.eqb_spec n 1) as [-> | Hne]; [reflexivity |].
    replace n with 0 by lia. reflexivity.
Qed.

End Solver.

Arguments Move Peg : clear implicits.

Import String.

(** The peg labels of the demonstration call
    [solve_tower(3, 'A', 'B', 'C')]. *)
Definition peg_A : string := "A"%string.
Definition peg_B : string := "B"%string.
Definition peg_C : string := "C"%string.

(** The calls at [n = 1] for two disks.  The third is from peg B to
    peg A: the last recursive call of the source passes
    [(temp, dst, src)], so its sub-problem runs from [temp] to [src]. *)
Example unit_calls_two_disks :
  unit_calls 2 peg_A peg_B peg_C =
  [(peg_A, peg_B); (peg_A, peg_C); (peg_B, peg_A)].
Proof. reflexivity. Qed.

(** C1 (the move count is 2^n - 1).  The code at one disk:
    [solve_tower(1, 'A', 'B', 'C')] emits 0 moves, where the claim
    requires 2^1 - 1 = 1. *)
Theorem solve_tower_one_disk_count :
  Z.of_nat (List.length (solve_tower 1 peg_A peg_B peg_C)) = 0 /\
  Z.of_nat (List.length (solve_tower 1 peg_A peg_B peg_C)) <> 2 ^ 1 - 1.
Proof.
  rewrite solve_tower_emits_nothing. cbn. split; [reflexivity | discriminate].
Qed.

(** C2 (one disk gives the single move (source, destination)).  The code:
    [solve_tower(1, 'A', 'B', 'C')] emits the empty sequence, not
    [[(A, C)]]. *)
Theorem solve_tower_one_disk_moves :
  solve_tower 1 peg_A peg_B peg_C = [] /\
  solve_tower 1 peg_A peg_B peg_C <> [(peg_A, peg_C)].
Proof.
  rewrite solve_tower_emits_nothing. split; [reflexivity | discriminate].
Qed.

(** C3 (for n > 1 the moves are those of n-1 disks from source to
    auxiliary with destination as auxiliary, then the move
    (source, destination), then those of n-1 disks from auxiliary to
    destination with source as auxiliary).  The code at two disks:
    [solve_tower(2, 'A', 'B', 'C')] emits nothing, while the sequence
    the claim describes, built from what the code emits for one disk, is
    [[(A, C)]]: the middle call [solve_tower(1, src, temp, dst)] emits
    no move. *)
Theorem solve_tower_two_disks_decomposition :
  solve_tower 2 peg_A peg_B peg_C = [] /\
  solve_tower (2 - 1) peg_A peg_C peg_B ++ [(peg_A, peg_C)] ++
    solve_tower (2 - 1) peg_B peg_A peg_C = [(peg_A, peg_C)] /\
  solve_tower 2 peg_A peg_B peg_C <>
    solve_tower (2 - 1) peg_A peg_C peg_B ++ [(peg_A, peg_C)] ++
    solve_tower (2 - 1) peg_B peg_A peg_C.
Proof.
  rewrite !solve_tower_emits_nothing.
  split; [reflexivity |]. split; [reflexivity | discriminate].
Qed.

(** C10 (termination for every integer disk count).  For every [n], a
    budget of [max 1 n] nested calls is enough for the call to return;
    the recursive calls of a call that passes the guard are at [n - 1]
    and [1], both at least 1 and below [n]; and a call with [n <= 1]
    returns in its own frame, having emitted no move. *)
Theorem solve_tower_terminates {Peg : Type} (n : Z) (src temp dst : Peg) :
  (exists moves : list (Move Peg),
      forall depth : nat,
        (Nat.max 1 (Z.to_nat n) <= depth)%nat ->
        solve_tower_depth depth n src temp dst = Some moves) /\
  (n > 1 -> 1 <= n - 1 < n /\ 1 <= 1 < n) /\
  (n <= 1 ->
   solve_tower_depth 1 n src temp dst = Some [] /\
   solve_tower n src temp dst = []).
Proof.
  split; [| split].
  - exists (solve_tower n src temp dst). intros depth Hd.
    apply solve_tower_depth_enough; lia.
  - lia.
  - intros Hn. split; [| apply solve_tower_base; exact Hn].
    rewrite solve_tower_depth_enough by lia.
    rewrite solve_tower_base by exact Hn. reflexivity.
Qed.

(** The theorem at the disk counts 3 (recursive branch) and 0 (guard not
    passed). *)
Lemma solve_tower_terminates_witness :
  ((Nat.max 1 (Z.to_nat 3) <= 3)%nat /\
   exists moves : list (Move string),
     solve_tower_depth 3 3 peg_A peg_B peg_C = Some moves) /\
  (3 > 1 /\ 1 <= 3 - 1 < 3 /\ 1 <= 1 < 3) /\
  (0 <= 1 /\
   solve_tower_depth 1 0 peg_A peg_B peg_C = Some [] /\
   solve_tower 0 peg_A peg_B peg_C = []).
Proof.
  split; [| split].
  - destruct (solve_tower_terminates 3 peg_A peg_B peg_C)
      as [[moves Hdepth] _].
    assert (Hbudget : (Nat.max 1 (Z.to_nat 3) <= 3)%nat) by (vm_compute; lia).
    split; [exact Hbudget |].
    exists moves. exact (Hdepth 3%nat Hbudget).
  - destruct (solve_tower_terminates 3 peg_A peg_B peg_C) as [_ [Hrec _]].
    split; [lia | apply Hrec; lia].
  - destruct (solve_tower_terminates 0 peg_A peg_B peg_C) as [_ [_ Hbase]].
    split; [lia | apply Hbase; lia].
Defined.

(** ** Further properties of [solve_tower] *)

(** The number of calls of [solve_tower] that the execution of
    [solve_tower(n, ...)] makes, the outermost included: one for the
    call itself and, past the guard, those of its three sub-calls.  The
    pegs play no part in the guard, so the count has the disk count as
    its only argument. *)
Equations? call_count (n : Z) : Z by wf (Z.to_nat n) lt :=
  call_count n with inspect (n >? 1) => {
    | exist _ true Hgt :=
        1 + (call_count (n - 1) + call_count 1 + call_count (n - 1));
    | exist _ false _ := 1 }.
Proof.
  all: apply Z.gtb_lt in Hgt; lia.
Qed.

(** A budget below [max 1 n] frames is not enough: the chain of first
    sub-calls [n, n - 1, ..., 1] is [n] frames deep. *)
Lemma solve_tower_depth_short {Peg : Type} (depth : nat) :
  forall (n : Z) (src temp dst : Peg),
    (depth < Nat.max 1 (Z.to_nat n))%nat ->
    solve_tower_depth depth n src temp dst = None.
Proof.
  induction depth as [| d IH]; intros n src temp dst Hd; [reflexivity |].
  cbn [solve_tower_depth].
  destruct (n >? 1) eqn:Hgt.
  - apply Z.gtb_lt in Hgt. rewrite IH by lia. reflexivity.
  - destruct (Z.gtb_spec n 1); [discriminate | lia].
Qed.

(** X1.  Whatever the disk count and the pegs, a call of [solve_tower]
    emits no move; under a budget of frames it either does not return or
    returns having emitted no move. *)
Theorem solve_tower_silent {Peg : Type} (n : Z) (src temp dst : Peg) :
  solve_tower n src temp dst = [] /\
  forall depth : nat,
    solve_tower_depth depth n src temp dst = None \/
    solve_tower_depth depth n src temp dst = Some [].
Proof.
  split; [apply solve_tower_emits_nothing |].
  intros depth.
  destruct (Nat.le_gt_cases (Nat.max 1 (Z.to_nat n)) depth) as [Hle | Hlt].
  - right. rewrite solve_tower_depth_enough by lia.
    rewrite solve_tower_emits_nothing. reflexivity.
  - left. apply solve_tower_depth_short. exact Hlt.
Qed.

(** X2.  The recursion of [solve_tower(n, ...)] is exactly [max 1 n]
    frames deep: with that many frames or more the call returns (with no
    move), with fewer it does not. *)
Theorem solve_tower_depth_exact {Peg : Type}
        (depth : nat) (n : Z) (src temp dst : Peg) :
  solve_tower_depth depth n src temp dst =
  if (Nat.max 1 (Z.to_nat n) <=? depth)%nat then Some [] else None.
Proof.
  destruct (Nat.leb_spec (Nat.max 1 (Z.to_nat n)) depth) as [Hle | Hlt].
  - rewrite solve_tower_depth_enough by lia.
    rewrite solve_tower_emits_nothing. reflexivity.
  - apply solve_tower_depth_short. exact Hlt.
Qed.

(** X3.  The calls with [n = 1] in the execution of
    [solve_tower(n, ...)] number 2^n - 1 for [n >= 0], and none for a
    negative [n]. *)
Theorem unit_calls_length {Peg : Type} (n : Z) (src temp dst : Peg) :
  Z.of_nat (List.length (unit_calls n src temp dst)) = 2 ^ Z.max 0 n - 1.
Proof.
  destruct (Z.le_gt_cases 0 n) as [Hn | Hn].
  - rewrite Z.max_r by exact Hn. apply unit_calls_count. exact Hn.
  - rewrite Z.max_l by lia.
    funelim (unit_calls n src temp dst).
    + pose proof (proj1 (Z.gtb_lt n 1) Hgt). lia.
    + destruct (Z.eqb_spec n 1); [lia | reflexivity].
Qed.

(** X4.  Every call with [n = 1] in the execution of
    [solve_tower(n, src, temp, dst)] is between two of the three pegs of
    the outermost call, and between two different pegs when these three
    are pairwise different: each call hands its own pegs on, permuted. *)
Theorem unit_calls_pegs {Peg : Type} (n : Z) (src temp dst : Peg) :
  forall m : Move Peg,
    In m (unit_calls n src temp dst) ->
    (fst m = src \/ fst m = temp \/ fst m = dst) /\
    (snd m = src \/ snd m = temp \/ snd m = dst) /\
    (src <> temp -> src <> dst -> temp <> dst -> fst m <> snd m).
Proof.
  funelim (unit_calls n src temp dst); intros m Hin.
  - apply in_app_or in Hin as [Hin | Hin];
      [| apply in_app_or in Hin as [Hin | Hin]];
      match goal with
      | IH : forall m0, In m0 (unit_calls ?k ?a ?b ?c) -> _,
        Hm : In m (unit_calls ?k ?a ?b ?c) |- _ =>
          destruct (IH m Hm) as [Hfst [Hsnd Hne]]
      end;
      (split; [tauto |]); (split; [tauto |]);
      intros; apply Hne; congruence.
  - destruct (n =? 1); [| destruct Hin].
    destruct Hin as [<- | []]. cbn.
    split; [tauto |]. split; [tauto |]. intros _ Hne _. exact Hne.
Qed.

(** X4 at two disks: the last of the three calls, from B to A. *)
Lemma unit_calls_pegs_witness :
  In (peg_B, peg_A) (unit_calls 2 peg_A peg_B peg_C) /\
  (peg_A <> peg_B /\ peg_A <> peg_C /\ peg_B <> peg_C) /\
  fst (peg_B, peg_A) <> snd (peg_B, peg_A).
Proof.
  assert (Hin : In (peg_B, peg_A) (unit_calls 2 peg_A peg_B peg_C))
    by (vm_compute; tauto).
  assert (Hab : peg_A <> peg_B) by discriminate.
  assert (Hac : peg_A <> peg_C) by discriminate.
  assert (Hbc : peg_B <> peg_C) by discriminate.
  split; [exact Hin |]. split; [tauto |].
  destruct (unit_calls_pegs 2 peg_A peg_B peg_C (peg_B, peg_A) Hin)
    as [_ [_ Hne]].
  exact (Hne Hab Hac Hbc).
Defined.

(** X5.  The execution of [solve_tower(n, ...)] makes one call for
    [n <= 1] and 3 * 2^(n-1) - 2 calls for [n > 1]: the work doubles
    with each disk. *)
Theorem call_count_closed (n : Z) :
  call_count n = if n >? 1 then 3 * 2 ^ (n - 1) - 2 else 1.
Proof.
  funelim (call_count n).
  - pose proof (proj1 (Z.gtb_lt n 1) Hgt) as Hlt.
    rewrite Hgt.
    repeat match goal with
           | IH : call_count ?k = _ |- _ => rewrite IH; clear IH
           end.
    change (1 >? 1) with false. cbv iota.
    destruct (Z.gtb_spec (n - 1) 1) as [Hbig | Hsmall].
    + replace (n - 1) with (Z.succ (n - 1 - 1)) at 3 by lia.
      rewrite Z.pow_succ_r by lia. lia.
    + replace n with 2 by lia. reflexivity.
  - rewrite e. reflexivity.
Qed.

End Hanoi.

(* ===================================================================== *)
(** * Binary search: [src/misoto/binary_search.py] *)
(* ===================================================================== *)

Module Search.

(** The two comparisons the function applies to the elements: Python's
    [==] and [<]. *)
Class Comparable (A : Type) : Type := {
  py_eq : A -> A -> bool;
  py_lt : A -> A -> bool
}.

(** Comparable elements in the sense of the specification: [==] decides
    equality and [<] is a strict total order. *)
Class Ordered (A : Type) `{Comparable A} : Prop := {
  py_eq_spec : forall x y : A, py_eq x y = true <-> x = y;
  py_lt_irrefl : forall x : A, py_lt x x = false;
  py_lt_trans : forall x y z : A,
      py_lt x y = true -> py_lt y z = true -> py_lt x z = true;
  py_lt_total : forall x y : A,
      py_eq x y = false -> py_lt x y = false -> py_lt y x = true
}.

(** Python integers as elements, as in the example usage of the script. *)
#[export] Instance Comparable_Z : Comparable Z := {|
  py_eq := Z.eqb;
  py_lt := Z.ltb
|}.

#[export] Instance Ordered_Z : Ordered Z.
Proof.
  split; cbn.
  - intros x y. apply Z.eqb_eq.
  - intros x. apply Z.ltb_irrefl.
  - intros x y z Hxy Hyz. apply Z.ltb_lt in Hxy, Hyz. apply Z.ltb_lt. lia.
  - intros x y Hne Hlt. apply Z.eqb_neq in Hne. apply Z.ltb_ge in Hlt.
    apply Z.ltb_lt. lia.
Qed.

(** What a call ends with: [return mid], [return None], or the
    [IndexError] that a subscript outside the list raises. *)
Inductive outcome : Type :=
| Returned (r : option Z)
| IndexError.

(** What one pass through the [while] statement does: leave the function
    or go round again with a new interval. *)
Inductive iteration : Type :=
| Exit (o : outcome)
| Next (low high : Z).

(** A finished call: its outcome, and the indices at which [arr[mid]] was
    evaluated, in order (one entry per evaluation). *)
Record run : Type := {
  reads : list Z;
  result : outcome
}.

Definition prepend (rd : list Z) (r : run) : run :=
  {| reads := rd ++ reads r; result := result r |}.

Section BinarySearch.

Context {A : Type} `{Comparable A}.

(** [arr[i]] on a Python list: indices [0 .. len-1] address the list,
    indices [-len .. -1] address it from the end, any other index raises
    [IndexError] (here [None]). *)
Definition getitem (arr : list A) (i : Z) : option A :=
  let n := Z.of_nat (length arr) in
  if (0 <=? i) && (i <? n) then nth_error arr (Z.to_nat i)
  else if (- n <=? i) && (i <? 0) then nth_error arr (Z.to_nat (i + n))
  else None.

(** One evaluation of the loop test and, when it holds, of the loop body.

<<
      while low <= high:
          mid = (low + high) // 2
          if arr[mid] == target:
              return mid
          elif arr[mid] < target:
              low = mid + 1
          else:
              high = mid - 1
      return None
>>
    [arr[mid]] is evaluated once for the [if] and once more for the
    [elif]; each evaluation is recorded. *)
Definition loop_body (arr : list A) (target : A) (low high : Z)
  : list Z * iteration :=
  if low <=? high then
    let mid := (low + high) / 2 in
    match getitem arr mid with
    | None => ([mid], Exit IndexError)
    | Some v =>
        if py_eq v target then ([mid], Exit (Returned (Some mid)))
        else
          match getitem arr mid with
          | None => ([mid; mid], Exit IndexError)
          | Some w =>
              if py_lt w target then ([mid; mid], Next (mid + 1) high)
              else ([mid; mid], Next low (mid - 1))
          end
    end
  else ([], Exit (Returned None)).

(** Every pass that goes round again was entered with [low <= high] and
    leaves an interval that is strictly narrower, and not narrower than
    the empty one. *)
Lemma loop_body_decreases (arr : list A) (target : A) (low high : Z)
      (rd : list Z) (low' high' : Z) :
  loop_body arr target low high = (rd, Next low' high') ->
  low <= high /\ -1 <= high' - low' < high - low.
Proof.
  unfold loop_body.
  destruct (low <=? high) eqn:Hle; [| discriminate].
  apply Z.leb_le in Hle.
  assert (Hmid : low <= (low + high) / 2 <= high).
  { split; [apply Z.div_le_lower_bound | apply Z.div_le_upper_bound]; lia. }
  destruct (getitem arr ((low + high) / 2)) as [v |]; [| discriminate].
  destruct (py_eq v target); [discriminate |].
  destruct (py_lt v target); intros Heq; inversion Heq; subst; lia.
Qed.

(** The [while] loop from the interval [[low, high]].  The recursion is on
    the width of the interval, which [loop_body_decreases] shows to
    shrink. *)
Equations? while_loop (arr : list A) (target : A) (low high : Z) : run
  by wf (Z.to_nat (high - low + 1)) lt :=
  while_loop arr target low high
    with inspect (loop_body arr target low high) => {
    | exist _ (rd, Exit o) _ := {| reads := rd; result := o |};
    | exist _ (rd, Next low' high') Hstep :=
        prepend rd (while_loop arr target low' high') }.
Proof.
  apply loop_body_decreases in Hstep. lia.
Qed.

(** The same loop with a budget of passes: [None] when [fuel] evaluations
    of the loop test do not reach an exit. *)
Fixpoint while_loop_fuel (fuel : nat) (arr : list A) (target : A)
         (low high : Z) : option run :=
  match fuel with
  | O => None
  | S f =>
      match loop_body arr target low high with
      | (rd, Exit o) => Some {| reads := rd; result := o |}
      | (rd, Next low' high') =>
          option_map (prepend rd) (while_loop_fuel f arr target low' high')
      end
  end.

(** [binary_search(arr, target)]: the loop from
    [low = 0], [high = len(arr) - 1]. *)
Definition binary_search (arr : list A) (target : A) : run :=
  while_loop arr target 0 (Z.of_nat (length arr) - 1).

Definition binary_search_fuel (fuel : nat) (arr : list A) (target : A)
  : option run :=
  while_loop_fuel fuel arr target 0 (Z.of_nat (length arr) - 1).

(** Non-decreasing order, checked on neighbours: no element is followed
    by a smaller one. *)
Fixpoint is_sorted (arr : list A) : bool :=
  match arr with
  | [] => true
  | x :: rest =>
      match rest with
      | [] => true
      | y :: _ => negb (py_lt y x) && is_sorted rest
      end
  end.

(** Non-decreasing order, index by index: an element is never smaller
    than one at an earlier (or the same) position. *)
Definition sorted (arr : list A) : Prop :=
  forall (i j : nat) (x y : A),
    (i <= j)%nat ->
    nth_error arr i = Some x -> nth_error arr j = Some y ->
    py_lt y x = false.

(** The order index by index passes the check on neighbours. *)
Lemma sorted_is_sorted (arr : list A) : sorted arr -> is_sorted arr = true.
Proof.
  induction arr as [| x rest IH]; intros Hs; [reflexivity |].
  destruct rest as [| y rest']; [reflexivity |].
  change (negb (py_lt y x) && is_sorted (y :: rest') = true).
  apply andb_true_iff. split.
  - apply negb_true_iff. apply (Hs 0%nat 1%nat x y); [lia | reflexivity ..].
  - apply IH. intros i j u v Hij Hi Hj.
    apply (Hs (S i) (S j) u v); [lia | assumption ..].
Qed.

(** ** The subscript *)

Lemma getitem_in_bounds (arr : list A) (i : Z) :
  0 <= i < Z.of_nat (length arr) ->
  exists v : A, getitem arr i = Some v /\ nth_error arr (Z.to_nat i) = Some v.
Proof.
  intros Hi. unfold getitem. cbv zeta.
  replace (0 <=? i) with true by (symmetry; apply Z.leb_le; lia).
  replace (i <? Z.of_nat (length arr)) with true
    by (symmetry; apply Z.ltb_lt; lia).
  cbn [andb].
  destruct (nth_error arr (Z.to_nat i)) as [v |] eqn:Hnth.
  - exists v. split; reflexivity.
  - apply nth_error_None in Hnth. lia.
Qed.

(** ** One pass of the loop *)

Lemma midpoint_between (low high : Z) :
  low <= high -> low <= (low + high) / 2 <= high.
Proof.
  intros Hle.
  split; [apply Z.div_le_lower_bound | apply Z.div_le_upper_bound]; lia.
Qed.

(** What a pass does when the interval is within the list: it reads
    [arr[mid]] for an index [mid] of the interval and of the list, and
    either returns [mid], whose element equals the target, or narrows
    the interval to one side of [mid]; an empty interval returns [None]
    without a read.  No subscript fails. *)
Lemma loop_body_cases (arr : list A) (target : A) (low high : Z) :
  0 <= low -> high <= Z.of_nat (length arr) - 1 ->
  (high < low /\ loop_body arr target low high = ([], Exit (Returned None)))
  \/
  (exists (mid : Z) (v : A),
      mid = (low + high) / 2 /\
      low <= mid <= high /\
      0 <= mid < Z.of_nat (length arr) /\
      nth_error arr (Z.to_nat mid) = Some v /\
      ((py_eq v target = true /\
        loop_body arr target low high = ([mid], Exit (Returned (Some mid))))
       \/
       (py_eq v target = false /\ py_lt v target = true /\
        loop_body arr target low high = ([mid; mid], Next (mid + 1) high))
       \/
       (py_eq v target = false /\ py_lt v target = false /\
        loop_body arr target low high = ([mid; mid], Next low (mid - 1))))).
Proof.
  intros Hlow Hhigh. unfold loop_body.
  destruct (low <=? high) eqn:Hle.
  - apply Z.leb_le in Hle. right.
    pose proof (midpoint_between low high Hle) as Hmid.
    cbv zeta.
    destruct (getitem_in_bounds arr ((low + high) / 2)) as [v [Hget Hnth]];
      [lia |].
    exists ((low + high) / 2), v.
    rewrite Hget.
    repeat (split; [first [reflexivity | lia | exact Hnth] |]).
    destruct (py_eq v target); [left; split; reflexivity |].
    right.
    destruct (py_lt v target); [left | right]; repeat split; reflexivity.
  - apply Z.leb_gt in Hle. left. split; [lia | reflexivity].
Qed.

(** ** The loop *)

(** The defining equation of [while_loop], in the shape of the source. *)
Lemma while_loop_body (arr : list A) (target : A) (low high : Z) :
  while_loop arr target low high =
  match loop_body arr target low high with
  | (rd, Exit o) => {| reads := rd; result := o |}
  | (rd, Next low' high') => prepend rd (while_loop arr target low' high')
  end.
Proof.
  funelim (while_loop arr target low high).
  - rewrite e. reflexivity.
  - rewrite Hstep. reflexivity.
Qed.

(** Induction along the passes of the loop. *)
Lemma while_loop_induction (arr : list A) (target : A)
      (P : Z -> Z -> run -> Prop) :
  (forall low high rd o,
      loop_body arr target low high = (rd, Exit o) ->
      P low high {| reads := rd; result := o |}) ->
  (forall low high rd low' high',
      loop_body arr target low high = (rd, Next low' high') ->
      P low' high' (while_loop arr target low' high') ->
      P low high (prepend rd (while_loop arr target low' high'))) ->
  forall low high, P low high (while_loop arr target low high).
Proof.
  intros Hexit Hnext low high.
  remember (Z.to_nat (high - low + 1)) as width eqn:Hwidth.
  revert low high Hwidth.
  induction width as [width IH] using lt_wf_ind.
  intros low high Hwidth.
  rewrite while_loop_body.
  destruct (loop_body arr target low high) as [rd [o | low' high']] eqn:Hstep.
  - apply Hexit. exact Hstep.
  - apply Hnext; [exact Hstep |].
    apply (IH (Z.to_nat (high' - low' + 1))); [| reflexivity].
    apply loop_body_decreases in Hstep. lia.
Qed.

(** A budget above the width of the interval is enough for the budgeted
    loop to exit, with the run of [while_loop]. *)
Lemma while_loop_fuel_enough (arr : list A) (target : A) (fuel : nat) :
  forall low high : Z,
    (Z.to_nat (high - low + 1) < fuel)%nat ->
    while_loop_fuel fuel arr target low high =
    Some (while_loop arr target low high).
Proof.
  induction fuel as [| f IH]; intros low high Hfuel; [lia |].
  cbn [while_loop_fuel]. rewrite while_loop_body.
  destruct (loop_body arr target low high) as [rd [o | low' high']] eqn:Hstep;
    [reflexivity |].
  rewrite IH; [reflexivity |].
  apply loop_body_decreases in Hstep. lia.
Qed.

(** The interval stays within the list, so every read is at an index of
    the list and the loop never ends in [IndexError]. *)
Lemma while_loop_in_bounds (arr : list A) (target : A) (low high : Z) :
  0 <= low -> high <= Z.of_nat (length arr) - 1 ->
  Forall (fun mid => 0 <= mid < Z.of_nat (length arr))
         (reads (while_loop arr target low high)) /\
  result (while_loop arr target low high) <> IndexError.
Proof.
  pattern low, high, (while_loop arr target low high).
  apply while_loop_induction; clear low high.
  - intros low high rd o Hstep Hlow Hhigh. cbn.
    destruct (loop_body_cases arr target low high Hlow Hhigh)
      as [[_ Hempty] | [mid [v [_ [_ [Hmid [_ Hcase]]]]]]].
    + rewrite Hempty in Hstep. inversion Hstep; subst.
      split; [constructor | discriminate].
    + destruct Hcase as [[_ Hb] | [[_ [_ Hb]] | [_ [_ Hb]]]];
        rewrite Hb in Hstep; inversion Hstep; subst.
      split; [repeat constructor; lia | discriminate].
  - intros low high rd low' high' Hstep IH Hlow Hhigh. cbn.
    destruct (loop_body_cases arr target low high Hlow Hhigh)
      as [[_ Hempty] | [mid [v [_ [Hin [Hmid [_ Hcase]]]]]]].
    + rewrite Hempty in Hstep. discriminate.
    + destruct Hcase as [[_ Hb] | [[_ [_ Hb]] | [_ [_ Hb]]]];
        rewrite Hb in Hstep; inversion Hstep; subst;
        (destruct IH as [IHreads IHresult]; [lia | lia |]);
        (split; [| exact IHresult]);
        repeat (constructor; [lia |]); exact IHreads.
Qed.

(** A returned index is an index of the list whose element compares
    equal to the target. *)
Lemma while_loop_sound (arr : list A) (target : A) (low high : Z) :
  0 <= low -> high <= Z.of_nat (length arr) - 1 ->
  forall i : Z,
    result (while_loop arr target low high) = Returned (Some i) ->
    low <= i <= high /\
    exists v : A,
      nth_error arr (Z.to_nat i) = Some v /\ py_eq v target = true.
Proof.
  pattern low, high, (while_loop arr target low high).
  apply while_loop_induction; clear low high.
  - intros low high rd o Hstep Hlow Hhigh i. cbn. intros ->.
    destruct (loop_body_cases arr target low high Hlow Hhigh)
      as [[_ Hempty] | [mid [v [_ [Hin [_ [Hnth Hcase]]]]]]].
    + rewrite Hempty in Hstep. discriminate.
    + destruct Hcase as [[Heq Hb] | [[_ [_ Hb]] | [_ [_ Hb]]]];
        rewrite Hb in Hstep; inversion Hstep; subst.
      split; [lia | exists v; split; assumption].
  - intros low high rd low' high' Hstep IH Hlow Hhigh i. cbn. intros Hres.
    destruct (loop_body_cases arr target low high Hlow Hhigh)
      as [[_ Hempty] | [mid [v [_ [Hin [Hmid [_ Hcase]]]]]]].
    + rewrite Hempty in Hstep. discriminate.
    + destruct Hcase as [[_ Hb] | [[_ [_ Hb]] | [_ [_ Hb]]]];
        rewrite Hb in Hstep; inversion Hstep; subst;
        (destruct (IH ltac:(lia) ltac:(lia) i Hres) as [Hi Hv]);
        (split; [lia | exact Hv]).
Qed.

(** The bounds [0 <= low] and [high <= len(arr) - 1] hold again after a
    pass that goes round. *)
Lemma loop_body_invariant (arr : list A) (target : A) (low high : Z)
      (rd : list Z) (low' high' : Z) :
  0 <= low -> high <= Z.of_nat (length arr) - 1 ->
  loop_body arr target low high = (rd, Next low' high') ->
  0 <= low' /\ high' <= Z.of_nat (length arr) - 1.
Proof.
  intros Hlow Hhigh Hstep.
  destruct (loop_body_cases arr target low high Hlow Hhigh)
    as [[_ Hempty] | [mid [v [_ [Hin [Hmid [_ Hcase]]]]]]].
  - rewrite Hempty in Hstep. discriminate.
  - destruct Hcase as [[_ Hb] | [[_ [_ Hb]] | [_ [_ Hb]]]];
      rewrite Hb in Hstep; inversion Hstep; subst; lia.
Qed.

End BinarySearch.

(** ** Sorted input *)

Section SortedInput.

Context {A : Type} `{Ordered A}.

(** "Not smaller than" is transitive. *)
Lemma py_le_trans (x y z : A) :
  py_lt y x = false -> py_lt z y = false -> py_lt z x = false.
Proof.
  intros Hxy Hyz.
  destruct (py_lt z x) eqn:Hzx; [| reflexivity].
  destruct (py_eq y x) eqn:Heq.
  - apply py_eq_spec in Heq. subst y. congruence.
  - pose proof (py_lt_total y x Heq Hxy) as Hlt.
    pose proof (py_lt_trans z x y Hzx Hlt). congruence.
Qed.

Lemma is_sorted_tail (x : A) (rest : list A) :
  is_sorted (x :: rest) = true -> is_sorted rest = true.
Proof.
  destruct rest as [| y rest']; [reflexivity |].
  cbn [is_sorted]. intros Hs. apply andb_true_iff in Hs. apply Hs.
Qed.

Lemma is_sorted_head (x : A) (rest : list A) :
  is_sorted (x :: rest) = true ->
  forall y : A, In y rest -> py_lt y x = false.
Proof.
  revert x. induction rest as [| z rest' IH]; intros x Hs y Hin.
  - destruct Hin.
  - cbn [is_sorted] in Hs. apply andb_true_iff in Hs as [Hzx Hrest].
    apply negb_true_iff in Hzx.
    destruct Hin as [-> | Hin]; [exact Hzx |].
    apply (py_le_trans x z y Hzx). apply (IH z Hrest y Hin).
Qed.

(** The check on neighbours gives the order index by index. *)
Lemma is_sorted_sorted (arr : list A) : is_sorted arr = true -> sorted arr.
Proof.
  induction arr as [| a arr' IH]; intros Hs i j x y Hij Hi Hj.
  - destruct i; discriminate.
  - destruct i as [| i'], j as [| j']; cbn in Hi, Hj.
    + inversion Hi; inversion Hj; subst. apply py_lt_irrefl.
    + inversion Hi; subst. apply (is_sorted_head x arr' Hs).
      apply nth_error_In with j'. exact Hj.
    + lia.
    + apply (IH (is_sorted_tail a arr' Hs) i' j' x y); [lia | assumption ..].
Qed.

(** On a sorted list, a loop that ends with [None] has left no
    occurrence of the target in its interval. *)
Lemma while_loop_complete (arr : list A) (target : A) (low high : Z) :
  sorted arr ->
  0 <= low -> high <= Z.of_nat (length arr) - 1 ->
  result (while_loop arr target low high) = Returned None ->
  forall i : Z,
    low <= i <= high -> nth_error arr (Z.to_nat i) <> Some target.
Proof.
  intros Hsorted.
  pattern low, high, (while_loop arr target low high).
  apply while_loop_induction; clear low high.
  - intros low high rd o Hstep Hlow Hhigh. cbn. intros -> i Hi.
    destruct (loop_body_cases arr target low high Hlow Hhigh)
      as [[Hempty _] | [mid [v [_ [_ [_ [_ Hcase]]]]]]]; [lia |].
    destruct Hcase as [[_ Hb] | [[_ [_ Hb]] | [_ [_ Hb]]]];
      rewrite Hb in Hstep; discriminate.
  - intros low high rd low' high' Hstep IH Hlow Hhigh. cbn.
    intros Hres i Hi Hocc.
    destruct (loop_body_cases arr target low high Hlow Hhigh)
      as [[_ Hempty] | [mid [v [_ [Hin [Hmid [Hnth Hcase]]]]]]].
    { rewrite Hempty in Hstep. discriminate. }
    destruct Hcase as [[_ Hb] | [[Hne [Hlt Hb]] | [Hne [Hge Hb]]]];
      rewrite Hb in Hstep; inversion Hstep; subst.
    + (* arr[mid] < target: no occurrence at or before mid *)
      destruct (Z_le_gt_dec i mid) as [Hle | Hgt].
      * pose proof (Hsorted (Z.to_nat i) (Z.to_nat mid)
                            target v ltac:(lia) Hocc Hnth).
        congruence.
      * apply (IH ltac:(lia) ltac:(lia) Hres i); [lia | exact Hocc].
    + (* target < arr[mid]: no occurrence at or after mid *)
      destruct (Z_lt_ge_dec i mid) as [Hlt' | Hge'].
      * apply (IH ltac:(lia) ltac:(lia) Hres i); [lia | exact Hocc].
      * pose proof (Hsorted (Z.to_nat mid) (Z.to_nat i)
                            v target ltac:(lia) Hnth Hocc) as Hnlt.
        pose proof (py_lt_total v target Hne Hge). congruence.
Qed.

End SortedInput.

(** ** The claims about [binary_search] *)

(** The list of the example usage: [arr = [1, 3, 5, 7, 9]]. *)
Definition example_arr : list Z := [1; 3; 5; 7; 9].

(** C4.  On a list sorted in non-decreasing order, the search for an
    element [x] that occurs in the list returns an index [i] of the list
    with [arr[i] = x]. *)
Theorem binary_search_finds {A : Type} `{Ordered A} (arr : list A) (x : A) :
  is_sorted arr = true ->
  In x arr ->
  exists i : Z,
    result (binary_search arr x) = Returned (Some i) /\
    0 <= i < Z.of_nat (length arr) /\
    nth_error arr (Z.to_nat i) = Some x.
Proof.
  intros Hs Hin.
  pose proof (is_sorted_sorted arr Hs) as Hsorted.
  assert (Hlow : 0 <= 0) by lia.
  assert (Hhigh : Z.of_nat (length arr) - 1 <= Z.of_nat (length arr) - 1)
    by lia.
  destruct (while_loop_in_bounds arr x _ _ Hlow Hhigh) as [_ Hsafe].
  unfold binary_search.
  destruct (result (while_loop arr x 0 (Z.of_nat (length arr) - 1)))
    as [[i |] |] eqn:Hres.
  - exists i.
    destruct (while_loop_sound arr x _ _ Hlow Hhigh i Hres)
      as [Hi [v [Hnth Heq]]].
    apply py_eq_spec in Heq. subst v.
    repeat split; [lia | lia | exact Hnth].
  - exfalso.
    apply In_nth_error in Hin as [n Hn].
    assert (Hlt : (n < length arr)%nat)
      by (apply nth_error_Some; congruence).
    apply (while_loop_complete arr x _ _ Hsorted Hlow Hhigh Hres (Z.of_nat n));
      [lia |].
    rewrite Nat2Z.id. exact Hn.
  - congruence.
Qed.

(** C4 at the example usage: the search for 5 in [[1; 3; 5; 7; 9]]. *)
Lemma binary_search_finds_witness :
  is_sorted example_arr = true /\
  In 5 example_arr /\
  exists i : Z,
    result (binary_search example_arr 5) = Returned (Some i) /\
    0 <= i < Z.of_nat (length example_arr) /\
    nth_error example_arr (Z.to_nat i) = Some 5.
Proof.
  assert (Hs : is_sorted example_arr = true) by reflexivity.
  assert (Hin : In 5 example_arr) by (cbn; tauto).
  split; [exact Hs |]. split; [exact Hin |].
  exact (binary_search_finds example_arr 5 Hs Hin).
Defined.

(** C5.  On a list sorted in non-decreasing order, the search for a value
    that does not occur in the list returns [None]; and whatever the
    target, a search of a sorted list ends with an index or with [None],
    never otherwise. *)
Theorem binary_search_absent {A : Type} `{Ordered A} (arr : list A) (x : A) :
  is_sorted arr = true ->
  (~ In x arr -> result (binary_search arr x) = Returned None) /\
  ((exists i : Z, result (binary_search arr x) = Returned (Some i)) \/
   result (binary_search arr x) = Returned None).
Proof.
  intros _.
  assert (Hlow : 0 <= 0) by lia.
  assert (Hhigh : Z.of_nat (length arr) - 1 <= Z.of_nat (length arr) - 1)
    by lia.
  destruct (while_loop_in_bounds arr x _ _ Hlow Hhigh) as [_ Hsafe].
  pose proof (while_loop_sound arr x _ _ Hlow Hhigh) as Hsound.
  unfold binary_search.
  destruct (result (while_loop arr x 0 (Z.of_nat (length arr) - 1)))
    as [[i |] |]; [| split; [reflexivity | right; reflexivity] | congruence].
  split; [| left; exists i; reflexivity].
  intros Hnotin. exfalso. apply Hnotin.
  destruct (Hsound i eq_refl) as [_ [v [Hnth Heq]]].
  apply py_eq_spec in Heq. subst v.
  apply nth_error_In with (Z.to_nat i). exact Hnth.
Qed.

(** C5 at the example usage: the search for 4 in [[1; 3; 5; 7; 9]]. *)
Lemma binary_search_absent_witness :
  is_sorted example_arr = true /\
  ~ In 4 example_arr /\
  result (binary_search example_arr 4) = Returned None.
Proof.
  assert (Hs : is_sorted example_arr = true) by reflexivity.
  assert (Hnotin : ~ In 4 example_arr) by (cbn; lia).
  split; [exact Hs |]. split; [exact Hnotin |].
  exact (proj1 (binary_search_absent example_arr 4 Hs) Hnotin).
Defined.

(** C6.  On the empty list the initial interval is [[0, -1]]; the first
    evaluation of the loop test fails, so the search returns [None]
    without reading or comparing an element, whatever the target. *)
Theorem binary_search_empty {A : Type} `{Comparable A} (x : A) :
  Z.of_nat (length (@nil A)) - 1 = -1 /\
  loop_body [] x 0 (-1) = ([], Exit (Returned None)) /\
  binary_search_fuel 1 [] x = Some {| reads := []; result := Returned None |} /\
  binary_search [] x = {| reads := []; result := Returned None |}.
Proof.
  split; [reflexivity |].
  split; [reflexivity |].
  split; [reflexivity |].
  unfold binary_search. rewrite while_loop_body. reflexivity.
Qed.

(** C7.  Whatever the list and the target, sorted or not: a pass of the
    loop that goes round again leaves a strictly narrower interval, and
    the loop exits within [len(arr) + 1] evaluations of its test. *)
Theorem binary_search_terminates {A : Type} `{Comparable A}
        (arr : list A) (target : A) :
  (forall (low high : Z) (rd : list Z) (low' high' : Z),
      loop_body arr target low high = (rd, Next low' high') ->
      low <= high /\ -1 <= high' - low' < high - low) /\
  (forall fuel : nat,
      (length arr < fuel)%nat ->
      binary_search_fuel fuel arr target = Some (binary_search arr target)).
Proof.
  split.
  - intros low high rd low' high'. apply loop_body_decreases.
  - intros fuel Hfuel. apply while_loop_fuel_enough. lia.
Qed.

(** C7 on an unsorted list: the search for 9 in [[9; 5; 1]]. *)
Lemma binary_search_terminates_witness :
  loop_body [9; 5; 1] 9 0 2 = ([1; 1], Next 2 2) /\
  (0 <= 2 /\ -1 <= 2 - 2 < 2 - 0) /\
  (length [9; 5; 1] < 4)%nat /\
  binary_search_fuel 4 [9; 5; 1] 9 = Some (binary_search [9; 5; 1] 9).
Proof.
  destruct (binary_search_terminates [9; 5; 1] 9) as [Hstep Hfuel].
  assert (Hbody : loop_body [9; 5; 1] 9 0 2 = ([1; 1], Next 2 2))
    by reflexivity.
  assert (Hlen : (length [9; 5; 1] < 4)%nat) by (cbn; lia).
  split; [exact Hbody |].
  split; [exact (Hstep 0 2 [1; 1] 2 2 Hbody) |].
  split; [exact Hlen | exact (Hfuel 4%nat Hlen)].
Defined.

(** C8.  Whatever the list and the target: the bounds [0 <= low] and
    [high <= len(arr) - 1] are kept by every pass of the loop, every
    index at which [arr[mid]] is read satisfies [0 <= mid < len(arr)] and
    addresses an element, and the search does not end in [IndexError]. *)
Theorem binary_search_reads_in_bounds {A : Type} `{Comparable A}
        (arr : list A) (target : A) :
  (forall (low high : Z) (rd : list Z) (low' high' : Z),
      0 <= low -> high <= Z.of_nat (length arr) - 1 ->
      loop_body arr target low high = (rd, Next low' high') ->
      0 <= low' /\ high' <= Z.of_nat (length arr) - 1) /\
  Forall (fun mid : Z =>
            0 <= mid < Z.of_nat (length arr) /\
            exists v : A, getitem arr mid = Some v)
         (reads (binary_search arr target)) /\
  result (binary_search arr target) <> IndexError.
Proof.
  split; [| split].
  - intros low high rd low' high'. apply loop_body_invariant.
  - apply Forall_impl
      with (P := fun mid : Z => 0 <= mid < Z.of_nat (length arr)).
    + intros mid Hmid. split; [exact Hmid |].
      destruct (getitem_in_bounds arr mid Hmid) as [v [Hget _]].
      exists v. exact Hget.
    + apply while_loop_in_bounds; lia.
  - apply while_loop_in_bounds; lia.
Qed.

(** C8 on an unsorted list: the search for 9 in [[9; 5; 1]]. *)
Lemma binary_search_reads_in_bounds_witness :
  (0 <= 0 /\ 2 <= Z.of_nat (length [9; 5; 1]) - 1 /\
   loop_body [9; 5; 1] 9 0 2 = ([1; 1], Next 2 2) /\
   0 <= 2 /\ 2 <= Z.of_nat (length [9; 5; 1]) - 1) /\
  reads (binary_search [9; 5; 1] 9) = [1; 1; 2; 2] /\
  result (binary_search [9; 5; 1] 9) <> IndexError.
Proof.
  destruct (binary_search_reads_in_bounds [9; 5; 1] 9) as [Hinv [_ Hsafe]].
  assert (Hlow : 0 <= 0) by lia.
  assert (Hhigh : 2 <= Z.of_nat (length [9; 5; 1]) - 1) by (cbn; lia).
  assert (Hbody : loop_body [9; 5; 1] 9 0 2 = ([1; 1], Next 2 2))
    by reflexivity.
  split.
  - split; [exact Hlow |]. split; [exact Hhigh |]. split; [exact Hbody |].
    exact (Hinv 0 2 [1; 1] 2 2 Hlow Hhigh Hbody).
  - split; [reflexivity | exact Hsafe].
Defined.

(** C9.  Whatever the list and the target, sorted or not: an index [i]
    that the search returns satisfies [0 <= i < len(arr)] and
    [arr[i] == target]. *)
Theorem binary_search_sound {A : Type} `{Comparable A}
        (arr : list A) (target : A) (i : Z) :
  result (binary_search arr target) = Returned (Some i) ->
  0 <= i < Z.of_nat (length arr) /\
  exists v : A,
    nth_error arr (Z.to_nat i) = Some v /\
    getitem arr i = Some v /\
    py_eq v target = true.
Proof.
  intros Hres.
  assert (Hlow : 0 <= 0) by lia.
  assert (Hhigh : Z.of_nat (length arr) - 1 <= Z.of_nat (length arr) - 1)
    by lia.
  destruct (while_loop_sound arr target _ _ Hlow Hhigh i Hres)
    as [Hi [v [Hnth Heq]]].
  split; [lia |].
  exists v. split; [exact Hnth |]. split; [| exact Heq].
  destruct (getitem_in_bounds arr i) as [w [Hget Hw]]; [lia |].
  congruence.
Qed.

(** C9 on an unsorted list: the search for 7 in [[9; 7; 1]] returns 1. *)
Lemma binary_search_sound_witness :
  result (binary_search [9; 7; 1] 7) = Returned (Some 1) /\
  0 <= 1 < Z.of_nat (length [9; 7; 1]) /\
  exists v : Z,
    nth_error [9; 7; 1] (Z.to_nat 1) = Some v /\
    getitem [9; 7; 1] 1 = Some v /\
    py_eq v 7 = true.
Proof.
  assert (Hres : result (binary_search [9; 7; 1] 7) = Returned (Some 1))
    by reflexivity.
  split; [exact Hres |].
  exact (binary_search_sound [9; 7; 1] 7 1 Hres).
Defined.

(** ** Further properties of [binary_search] *)

Section Cost.

Context {A : Type} `{Comparable A}.

(** The loop test fails on an empty interval. *)
Lemma loop_body_empty (arr : list A) (target : A) (low high : Z) :
  high < low -> loop_body arr target low high = ([], Exit (Returned None)).
Proof.
  intros Hlt. unfold loop_body.
  destruct (Z.leb_spec low high); [lia | reflexivity].
Qed.

(** A pass evaluates [arr[mid]] at most twice. *)
Lemma loop_body_reads (arr : list A) (target : A) (low high : Z) :
  (length (fst (loop_body arr target low high)) <= 2)%nat.
Proof.
  unfold loop_body.
  destruct (low <=? high); [| cbn; lia].
  cbv zeta.
  destruct (getitem arr ((low + high) / 2)) as [v |]; [| cbn; lia].
  destruct (py_eq v target); [cbn; lia |].
  destruct (py_lt v target); cbn; lia.
Qed.

(** A pass that goes round again keeps at most half of the interval. *)
Lemma loop_body_halves (arr : list A) (target : A) (low high : Z)
      (rd : list Z) (low' high' : Z) :
  loop_body arr target low high = (rd, Next low' high') ->
  2 * (high' - low' + 1) <= high - low + 1.
Proof.
  unfold loop_body.
  destruct (low <=? high); [| discriminate].
  cbv zeta.
  pose proof (Z.mul_div_le (low + high) 2 ltac:(lia)) as Hdown.
  pose proof (Z.mul_succ_div_gt (low + high) 2 ltac:(lia)) as Hup.
  destruct (getitem arr ((low + high) / 2)) as [v |]; [| discriminate].
  destruct (py_eq v target); [discriminate |].
  destruct (py_lt v target); intros Heq; inversion Heq; subst; lia.
Qed.

(** One pass of the budgeted loop. *)
Lemma while_loop_fuel_step (fuel : nat) (arr : list A) (target : A)
      (low high : Z) :
  while_loop_fuel (S fuel) arr target low high =
  match loop_body arr target low high with
  | (rd, Exit o) => Some {| reads := rd; result := o |}
  | (rd, Next low' high') =>
      option_map (prepend rd) (while_loop_fuel fuel arr target low' high')
  end.
Proof. reflexivity. Qed.

(** An interval of fewer than 2^k indices is searched in at most [k]
    passes. *)
Lemma while_loop_logarithmic (arr : list A) (target : A) (k : nat) :
  forall low high : Z,
    high - low + 1 < 2 ^ Z.of_nat k ->
    while_loop_fuel (S k) arr target low high =
      Some (while_loop arr target low high) /\
    (length (reads (while_loop arr target low high)) <= 2 * k)%nat.
Proof.
  induction k as [| k IH]; intros low high Hwidth.
  - change (2 ^ Z.of_nat 0) with 1 in Hwidth.
    rewrite while_loop_fuel_step, while_loop_body.
    rewrite loop_body_empty by lia. split; [reflexivity | cbn; lia].
  - rewrite Nat2Z.inj_succ, Z.pow_succ_r in Hwidth by lia.
    pose proof (loop_body_reads arr target low high) as Hreads.
    rewrite while_loop_fuel_step, while_loop_body.
    destruct (loop_body arr target low high) as [rd [o | low' high']] eqn:Hstep;
      cbn [fst] in Hreads.
    + split; [reflexivity | cbn; lia].
    + apply loop_body_halves in Hstep.
      destruct (IH low' high' ltac:(lia)) as [Hrun Hcount].
      rewrite Hrun. split; [reflexivity |].
      cbn [prepend reads]. rewrite length_app. lia.
Qed.

(** Strictly increasing order, checked on neighbours. *)
Fixpoint is_strictly_sorted (arr : list A) : bool :=
  match arr with
  | [] => true
  | x :: rest =>
      match rest with
      | [] => true
      | y :: _ => py_lt x y && is_strictly_sorted rest
      end
  end.

End Cost.

(** X6.  The search of a list of fewer than 2^k elements makes at most
    [k] passes through the loop (it exits within [k + 1] evaluations of
    the loop test) and evaluates [arr[mid]] at most [2 * k] times,
    whatever the list and the target. *)
Theorem binary_search_logarithmic {A : Type} `{Comparable A}
        (arr : list A) (target : A) (k : nat) :
  Z.of_nat (length arr) < 2 ^ Z.of_nat k ->
  binary_search_fuel (S k) arr target = Some (binary_search arr target) /\
  (length (reads (binary_search arr target)) <= 2 * k)%nat.
Proof.
  intros Hlen. apply while_loop_logarithmic. lia.
Qed.

(** X6 at the list of the example usage, five elements, and the absent
    target 4: three passes, six reads. *)
Lemma binary_search_logarithmic_witness :
  Z.of_nat (length example_arr) < 2 ^ Z.of_nat 3 /\
  binary_search_fuel 4 example_arr 4 = Some (binary_search example_arr 4) /\
  (length (reads (binary_search example_arr 4%Z)) <= 2 * 3)%nat.
Proof.
  assert (Hlen : Z.of_nat (length example_arr) < 2 ^ Z.of_nat 3)
    by (vm_compute; reflexivity).
  split; [exact Hlen |].
  exact (binary_search_logarithmic example_arr 4 3 Hlen).
Defined.

Section StrictlySortedInput.

Context {A : Type} `{Ordered A}.

Lemma py_lt_asym (x y : A) : py_lt x y = true -> py_lt y x = false.
Proof.
  intros Hxy. destruct (py_lt y x) eqn:Hyx; [| reflexivity].
  pose proof (py_lt_trans x y x Hxy Hyx) as Hxx.
  rewrite py_lt_irrefl in Hxx. discriminate.
Qed.

Lemma is_strictly_sorted_head (x : A) (rest : list A) :
  is_strictly_sorted (x :: rest) = true ->
  forall y : A, In y rest -> py_lt x y = true.
Proof.
  revert x. induction rest as [| z rest' IH]; intros x Hs y Hin.
  - destruct Hin.
  - cbn [is_strictly_sorted] in Hs. apply andb_true_iff in Hs as [Hxz Hrest].
    destruct Hin as [-> | Hin]; [exact Hxz |].
    apply (py_lt_trans x z y Hxz). apply (IH z Hrest y Hin).
Qed.

Lemma is_strictly_sorted_tail (x : A) (rest : list A) :
  is_strictly_sorted (x :: rest) = true -> is_strictly_sorted rest = true.
Proof.
  destruct rest as [| y rest']; [reflexivity |].
  cbn [is_strictly_sorted]. intros Hs. apply andb_true_iff in Hs. apply Hs.
Qed.

(** In a strictly increasing list an element at an earlier position is
    smaller than one at a later position. *)
Lemma is_strictly_sorted_indices (arr : list A) :
  is_strictly_sorted arr = true ->
  forall (i j : nat) (x y : A),
    (i < j)%nat ->
    nth_error arr i = Some x -> nth_error arr j = Some y ->
    py_lt x y = true.
Proof.
  induction arr as [| a arr' IH]; intros Hs i j x y Hij Hi Hj.
  - destruct i; discriminate.
  - destruct i as [| i'], j as [| j']; cbn in Hi, Hj; try lia.
    + inversion Hi; subst. apply (is_strictly_sorted_head x arr' Hs).
      apply nth_error_In with j'. exact Hj.
    + apply (IH (is_strictly_sorted_tail a arr' Hs) i' j' x y);
        [lia | assumption ..].
Qed.

Lemma is_strictly_sorted_sorted (arr : list A) :
  is_strictly_sorted arr = true -> sorted arr.
Proof.
  intros Hs i j x y Hij Hi Hj.
  destruct (Nat.eq_dec i j) as [-> | Hne].
  - rewrite Hi in Hj. inversion Hj; subst. apply py_lt_irrefl.
  - apply py_lt_asym.
    apply (is_strictly_sorted_indices arr Hs i j x y); [lia | assumption ..].
Qed.

(** On a sorted list, the search for the element at a position returns
    an index of an occurrence of that element. *)
Lemma binary_search_finds_position (arr : list A) (n : nat) (x : A) :
  sorted arr ->
  nth_error arr n = Some x ->
  exists i : Z,
    result (binary_search arr x) = Returned (Some i) /\
    0 <= i < Z.of_nat (length arr) /\
    nth_error arr (Z.to_nat i) = Some x.
Proof.
  intros Hsorted Hn.
  assert (Hlow : 0 <= 0) by lia.
  assert (Hhigh : Z.of_nat (length arr) - 1 <= Z.of_nat (length arr) - 1)
    by lia.
  destruct (while_loop_in_bounds arr x _ _ Hlow Hhigh) as [_ Hsafe].
  unfold binary_search.
  destruct (result (while_loop arr x 0 (Z.of_nat (length arr) - 1)))
    as [[i |] |] eqn:Hres; [| exfalso | congruence].
  - exists i.
    destruct (while_loop_sound arr x _ _ Hlow Hhigh i Hres)
      as [Hi [v [Hnth Heq]]].
    apply py_eq_spec in Heq. subst v.
    split; [reflexivity |]. split; [lia | exact Hnth].
  - assert (Hlt : (n < length arr)%nat)
      by (apply nth_error_Some; congruence).
    apply (while_loop_complete arr x _ _ Hsorted Hlow Hhigh Hres (Z.of_nat n));
      [lia |].
    rewrite Nat2Z.id. exact Hn.
Qed.

End StrictlySortedInput.

(** X7.  On a strictly increasing list, the search for the element at
    position [k] returns [k]: looking up an element by value gives back
    its index. *)
Theorem binary_search_index_roundtrip {A : Type} `{Ordered A}
        (arr : list A) (k : nat) (x : A) :
  is_strictly_sorted arr = true ->
  nth_error arr k = Some x ->
  result (binary_search arr x) = Returned (Some (Z.of_nat k)).
Proof.
  intros Hs Hk.
  destruct (binary_search_finds_position arr k x
              (is_strictly_sorted_sorted arr Hs) Hk)
    as [i [Hres [Hi Hnth]]].
  rewrite Hres. do 2 f_equal.
  assert (Hsame : Z.to_nat i = k).
  { destruct (Nat.lt_trichotomy (Z.to_nat i) k) as [Hlt | [Heq | Hgt]];
      [exfalso | exact Heq | exfalso].
    - pose proof (is_strictly_sorted_indices arr Hs _ _ x x Hlt Hnth Hk) as Hxx.
      rewrite py_lt_irrefl in Hxx. discriminate.
    - pose proof (is_strictly_sorted_indices arr Hs _ _ x x Hgt Hk Hnth) as Hxx.
      rewrite py_lt_irrefl in Hxx. discriminate. }
  lia.
Qed.

(** X7 at the list of the example usage: the element 7 at position 3. *)
Lemma binary_search_index_roundtrip_witness :
  is_strictly_sorted example_arr = true /\
  nth_error example_arr 3 = Some 7 /\
  result (binary_search example_arr 7) = Returned (Some (Z.of_nat 3)).
Proof.
  assert (Hs : is_strictly_sorted example_arr = true) by reflexivity.
  assert (Hk : nth_error example_arr 3 = Some 7) by reflexivity.
  split; [exact Hs |]. split; [exact Hk |].
  exact (binary_search_index_roundtrip example_arr 3 7 Hs Hk).
Defined.

End Search.

(* ===================================================================== *)
(** * The example usage of [src/misoto/binary_search.py] *)
(* ===================================================================== *)

Module Usage.

Import String.
Import Search.

Local Open Scope string_scope.

(** [str] of a Python integer, as an f-string inserts it: the decimal
    digits, after a minus sign for a negative number. *)
Definition str (z : Z) : string :=
  DecimalString.NilZero.string_of_int (Z.to_int z).

(** The text that the [if]/[else] of the example usage prints for a
    target and the value [binary_search] returned ([print] ends the line
    after it).

<<
      if result is not None:
          print(f"Element {target} found at index: {result}")
      else:
          print(f"Element {target} not found in the array")
>>
    The test is [is not None], so the index 0 takes the first branch. *)
Definition report (target : Z) (found : option Z) : string :=
  match found with
  | Some index =>
      "Element " ++ str target ++ " found at index: " ++ str index
  | None => "Element " ++ str target ++ " not found in the array"
  end.

(** The example usage for a list and a target: the call, then the
    report; no line is printed when the call raises. *)
Definition example_usage (arr : list Z) (target : Z) : option string :=
  match result (binary_search arr target) with
  | Returned found => Some (report target found)
  | IndexError => None
  end.

(** The script as it stands: [arr = [1, 3, 5, 7, 9]], [target = 5]. *)
Definition script_output : option string := example_usage example_arr 5.

Example script_output_line :
  script_output = Some "Element 5 found at index: 2".
Proof. reflexivity. Qed.





End Usage.
